(** * tbcml base script: a shallow embedding of [base_script.js]

    The script is a helper layer injected into an Android process by a
    dynamic-instrumentation host.  Every function of the script is embedded
    below as a computation over an explicit host state (process memory, the
    managed heap, the class loaders, the network, the two log sinks).  The
    primitives of the host and of the JavaScript engine are not part of the
    script: the host primitives are modelled in the sections named "Host",
    the engine's string conversions are parameters of the development. *)

From Stdlib Require Import ZArith Lia List.
From Stdlib.Strings Require Import Byte Ascii String.
From stdpp Require Import base option list gmap.

Local Open Scope Z_scope.

(** ** JavaScript strings and values *)

(** A JavaScript string is a sequence of UTF-16 code units. *)
Abbreviation JsString := (list Z).

(** The code units of an ASCII string literal of the source. *)
Definition lit (s : string) : JsString :=
  map (fun c => Z.of_N (N_of_ascii c)) (list_ascii_of_string s).

(** The values that reach [init], [log] and the template literals. *)
#[warnings="-register-all"]
Inductive JsValue : Type :=
| JsUndefined
| JsNull
| JsBool (b : bool)
| JsNumber (n : Z)
| JsStr (s : JsString)
| JsPointer (p : Z)
| JsArray (items : list JsValue)
| JsObject (fields : list (JsString * JsValue)).

(** The value of a function that ends without a [return] statement. *)
Inductive Undefined : Type := undefined.

(** [String.fromCharCode(n)]: the one-unit string holding [ToUint16 n]. *)
Definition fromCharCode (n : Z) : JsString := [n mod 65536].

(** [s.charCodeAt(i)] *)
Definition charCodeAt (s : JsString) (i : nat) : option Z := s !! i.

(** ** Errors raised by the engine and by the host *)

Inductive JsError : Type :=
| AccessViolation (address : Z)
| DecodeError
| TypeError (reading : JsString)
| CastError (handle : Z) (class : JsString)
| JavaException (class : JsString).

(** ** The host state *)

Inductive PointerWidth : Type := Ptr32 | Ptr64.

(** Managed objects that the script touches. *)
Inductive JObject : Type :=
| JString (content : JsString)
| JByteBuffer (limit : Z) (bytes : list byte)
| JUrl (spec : JsString)
| JUrlConnection (url : JsString)
| JInputStream (lines : list JsString)
| JInputStreamReader (source : Z)
| JBufferedReader (source : Z) (closed : bool)
| JStringBuilder (content : JsString)
| JOther (class : JsString).

Definition class_of (o : JObject) : JsString :=
  match o with
  | JString _ => lit "java.lang.String"
  | JByteBuffer _ _ => lit "java.nio.ByteBuffer"
  | JUrl _ => lit "java.net.URL"
  | JUrlConnection _ => lit "java.net.URLConnection"
  | JInputStream _ => lit "java.io.InputStream"
  | JInputStreamReader _ => lit "java.io.InputStreamReader"
  | JBufferedReader _ _ => lit "java.io.BufferedReader"
  | JStringBuilder _ => lit "java.lang.StringBuilder"
  | JOther c => c
  end.

(** A class loader: the classes its own path defines ([findClass]) and the
    classes it reaches through its parents ([loadClass] delegates first). *)
Record ClassLoader : Type := {
  loader_handle : Z;
  loader_own : list JsString;
  loader_inherited : list JsString;
}.

(** What [ActivityThread.currentApplication()] describes. *)
Record Application : Type := {
  package_name : JsString;
  version_code : Z;
}.

Inductive Priority : Type := PError | PWarn | PInfo | PVerbose | PDebug.
Inductive Stream : Type := SError | SWarn | SInfo | SLog.

Record Host : Type := {
  pointer_width : PointerWidth;
  arch : JsString;
  modules : gmap JsString Z;
  memory : gmap Z byte;
  heap : gmap Z JObject;
  application : option Application;
  loaders : list ClassLoader;
  network : gmap JsString (list JsString);
  logcat : list (Priority * JsString * JsString);
  console : list (Stream * JsString);
  consulted : list Z;
  connections : list JsString;
}.

Definition with_memory (m : gmap Z byte) (h : Host) : Host :=
  {| pointer_width := pointer_width h; arch := arch h; modules := modules h;
     memory := m; heap := heap h; application := application h;
     loaders := loaders h; network := network h; logcat := logcat h;
     console := console h; consulted := consulted h;
     connections := connections h |}.

Definition with_heap (g : gmap Z JObject) (h : Host) : Host :=
  {| pointer_width := pointer_width h; arch := arch h; modules := modules h;
     memory := memory h; heap := g; application := application h;
     loaders := loaders h; network := network h; logcat := logcat h;
     console := console h; consulted := consulted h;
     connections := connections h |}.

Definition with_logcat (l : list (Priority * JsString * JsString)) (h : Host) : Host :=
  {| pointer_width := pointer_width h; arch := arch h; modules := modules h;
     memory := memory h; heap := heap h; application := application h;
     loaders := loaders h; network := network h; logcat := l;
     console := console h; consulted := consulted h;
     connections := connections h |}.

Definition with_console (l : list (Stream * JsString)) (h : Host) : Host :=
  {| pointer_width := pointer_width h; arch := arch h; modules := modules h;
     memory := memory h; heap := heap h; application := application h;
     loaders := loaders h; network := network h; logcat := logcat h;
     console := l; consulted := consulted h;
     connections := connections h |}.

Definition with_consulted (l : list Z) (h : Host) : Host :=
  {| pointer_width := pointer_width h; arch := arch h; modules := modules h;
     memory := memory h; heap := heap h; application := application h;
     loaders := loaders h; network := network h; logcat := logcat h;
     console := console h; consulted := l;
     connections := connections h |}.

Definition with_connections (l : list JsString) (h : Host) : Host :=
  {| pointer_width := pointer_width h; arch := arch h; modules := modules h;
     memory := memory h; heap := heap h; application := application h;
     loaders := loaders h; network := network h; logcat := logcat h;
     console := console h; consulted := consulted h;
     connections := l |}.

(** ** Computations: host state passing with JavaScript exceptions *)

Inductive Outcome (A : Type) : Type :=
| Ret (a : A)
| Throw (e : JsError)
| OutOfFuel.
Arguments Ret {A} a.
Arguments Throw {A} e.
Arguments OutOfFuel {A}.

Definition M (A : Type) : Type := Host -> Outcome A * Host.

Definition ret {A} (a : A) : M A := fun h => (Ret a, h).
Definition throw {A} (e : JsError) : M A := fun h => (Throw e, h).
Definition bind {A B} (m : M A) (k : A -> M B) : M B :=
  fun h =>
    match m h with
    | (Ret a, h') => k a h'
    | (Throw e, h') => (Throw e, h')
    | (OutOfFuel, h') => (OutOfFuel, h')
    end.

(** [try { body } catch (e) { handler }]: the effects of [body] up to the
    throw stay. *)
Definition try_catch {A} (body : M A) (handler : JsError -> M A) : M A :=
  fun h =>
    match body h with
    | (Throw e, h') => handler e h'
    | r => r
    end.

Definition gets {A} (f : Host -> A) : M A := fun h => (Ret (f h), h).
Definition modify (f : Host -> Host) : M Undefined := fun h => (Ret undefined, f h).

Declare Scope js_scope.
Delimit Scope js_scope with js.
Notation "'let*' x := m 'in' k" := (bind m (fun x => k))
  (at level 10, x name, m at level 100, k at level 200, only parsing) : js_scope.
Notation "m >> k" := (bind m (fun _ => k))
  (at level 100, k at level 200, only parsing, right associativity) : js_scope.
Local Open Scope js_scope.

(** ** Host: native pointers and process memory

    A [NativePointer] is its address; pointer arithmetic wraps at the width
    of the process, and a pointer in memory is little-endian.  A mapped byte
    is readable and writable; address 0 is never accessible. *)

#[global] Instance byte_eq_decision : EqDecision byte := Byte.byte_eq_dec.

Definition byte_value (b : byte) : Z := Z.of_N (Byte.to_N b).

(** [Process.pointerSize] *)
Definition pointerSize (h : Host) : Z :=
  match pointer_width h with Ptr32 => 4 | Ptr64 => 8 end.

(** [p.add(n)] *)
Definition pointer_plus (h : Host) (p n : Z) : Z :=
  (p + n) mod 2 ^ (8 * pointerSize h).

Definition add (p n : Z) : M Z := gets (fun h => pointer_plus h p n).

Definition load (m : gmap Z byte) (p : Z) : option byte :=
  if decide (p = 0) then None else m !! p.

Definition store (m : gmap Z byte) (p : Z) (b : byte) : option (gmap Z byte) :=
  match load m p with
  | Some _ => Some (<[p := b]> m)
  | None => None
  end.

(** [p.readU8()] *)
Definition readU8 (p : Z) : M Z :=
  fun h =>
    match load (memory h) p with
    | Some b => (Ret (byte_value b), h)
    | None => (Throw (AccessViolation p), h)
    end.

(** The [n] bytes from [p] on, or the first address that faults. *)
Fixpoint load_bytes (m : gmap Z byte) (p : Z) (n : nat) : Z + list byte :=
  match n with
  | O => inr []
  | S n' =>
      match load m p with
      | None => inl p
      | Some b =>
          match load_bytes m (p + 1) n' with
          | inr bs => inr (b :: bs)
          | inl a => inl a
          end
      end
  end.

(** The value of a little-endian byte sequence. *)
Fixpoint little_endian (bs : list byte) : Z :=
  match bs with
  | [] => 0
  | b :: bs' => byte_value b + 256 * little_endian bs'
  end.

(** [p.readPointer()] *)
Definition readPointer (p : Z) : M Z :=
  fun h =>
    match load_bytes (memory h) p (Z.to_nat (pointerSize h)) with
    | inr bs => (Ret (little_endian bs), h)
    | inl a => (Throw (AccessViolation a), h)
    end.

Inductive Scan : Type :=
| Found (bs : list byte)
| Fault (address : Z)
| Unfinished.

(** The bytes from [p] up to the first NUL. *)
Fixpoint scan_cstring (fuel : nat) (m : gmap Z byte) (p : Z) : Scan :=
  match fuel with
  | O => Unfinished
  | S fuel' =>
      match load m p with
      | None => Fault p
      | Some b =>
          if decide (b = x00) then Found []
          else match scan_cstring fuel' m (p + 1) with
               | Found bs => Found (b :: bs)
               | r => r
               end
      end
  end.

(** The bytes of [bs] before its first NUL. *)
Fixpoint until_nul (bs : list byte) : list byte :=
  match bs with
  | [] => []
  | b :: bs' => if decide (b = x00) then [] else b :: until_nul bs'
  end.

(** The bytes written for a string: its bytes up to the first NUL, and the
    terminator. *)
Definition cstring (bs : list byte) : list byte := until_nul bs ++ [x00].

(** Writes [bs] from [p] on, byte by byte: the memory reached and the address
    that faulted, if any. *)
Fixpoint store_bytes (m : gmap Z byte) (p : Z) (bs : list byte)
  : gmap Z byte * option Z :=
  match bs with
  | [] => (m, None)
  | b :: bs' =>
      match store m p b with
      | None => (m, Some p)
      | Some m' => store_bytes m' (p + 1) bs'
      end
  end.

(** ** Host: the managed runtime *)

(** A wrapper around an instance, as [Java.cast] and [$new] return it. *)
Record Wrapper : Type := {
  w_handle : Z;
  w_class : JsString;
}.

(** A wrapper around a class, as [Java.use] and [factory.use] return it. *)
Record JClass : Type := {
  class_name : JsString;
  class_loader : option Z;
}.

Record ClassFactory : Type := {
  factory_loader : ClassLoader;
}.

(** [Java.perform(fn)]: enter the managed context, run [fn], return.  While
    the class loader of the application is not available yet the host keeps
    [fn] and runs it once the loader is there; the model runs [fn] at the
    call in either case, so the log sinks hold the entries in the order in
    which the script hands them over, not the moment at which they reach the
    device. *)
Definition Java_perform (fn : M Undefined) : M Undefined := fn.

(** [Java.use(name)] for a class of the platform. *)
Definition Java_use (name : JsString) : M JClass :=
  ret {| class_name := name; class_loader := None |}.

Definition instance_of (o : JObject) (class : JsString) : bool :=
  bool_decide (class_of o = class) || bool_decide (class = lit "java.lang.Object").

(** [Java.cast(handle, klass)] *)
Definition Java_cast (handle : Z) (klass : JClass) : M Wrapper :=
  fun h =>
    match heap h !! handle with
    | Some o =>
        if instance_of o (class_name klass)
        then (Ret {| w_handle := handle; w_class := class_name klass |}, h)
        else (Throw (CastError handle (class_name klass)), h)
    | None => (Throw (CastError handle (class_name klass)), h)
    end.

(** A new managed object, at a handle no object has. *)
Definition alloc (o : JObject) : M Wrapper :=
  fun h =>
    let a := fresh (dom (heap h)) in
    (Ret {| w_handle := a; w_class := class_of o |},
     with_heap (<[a := o]> (heap h)) h).

Definition set_object (handle : Z) (o : JObject) : M Undefined :=
  modify (fun h => with_heap (<[handle := o]> (heap h)) h).

(** [w.$new(content)] on a wrapper of [java.lang.String] *)
Definition String_new (w : Wrapper) (content : JsString) : M Wrapper :=
  alloc (JString content).

(** [bb.limit()] *)
Definition ByteBuffer_limit (bb : Wrapper) : M Z :=
  fun h =>
    match heap h !! w_handle bb with
    | Some (JByteBuffer limit _) => (Ret limit, h)
    | _ => (Throw (TypeError (lit "limit")), h)
    end.

(** A Java [byte] is signed. *)
Definition byte_signed (b : byte) : Z :=
  if byte_value b <? 128 then byte_value b else byte_value b - 256.

(** [bb.get(i)] *)
Definition ByteBuffer_get (bb : Wrapper) (i : Z) : M Z :=
  fun h =>
    match heap h !! w_handle bb with
    | Some (JByteBuffer limit bytes) =>
        if (0 <=? i) && (i <? limit) then
          match bytes !! Z.to_nat i with
          | Some b => (Ret (byte_signed b), h)
          | None => (Throw (JavaException (lit "java.lang.IndexOutOfBoundsException")), h)
          end
        else (Throw (JavaException (lit "java.lang.IndexOutOfBoundsException")), h)
    | _ => (Throw (TypeError (lit "get")), h)
    end.

(** [Java.enumerateClassLoadersSync()] *)
Definition enumerateClassLoadersSync : M (list ClassLoader) := gets loaders.

(** [loader.findClass(name)]; every call is recorded in [consulted]. *)
Definition findClass (l : ClassLoader) (name : JsString) : M JClass :=
  fun h =>
    let h' := with_consulted (consulted h ++ [loader_handle l]) h in
    if bool_decide (name ∈ loader_own l)
    then (Ret {| class_name := name; class_loader := Some (loader_handle l) |}, h')
    else (Throw (JavaException (lit "java.lang.ClassNotFoundException")), h').

(** [Java.ClassFactory.get(loader)] *)
Definition ClassFactory_get (l : ClassLoader) : M ClassFactory :=
  ret {| factory_loader := l |}.

(** [factory.use(name)]: the class as the factory's loader loads it. *)
Definition ClassFactory_use (f : ClassFactory) (name : JsString) : M JClass :=
  let l := factory_loader f in
  if bool_decide (name ∈ loader_own l) || bool_decide (name ∈ loader_inherited l)
  then ret {| class_name := name; class_loader := Some (loader_handle l) |}
  else throw (JavaException (lit "java.lang.ClassNotFoundException")).

(** [ActivityThread.currentApplication()]: [None] is [null]. *)
Definition currentApplication (ActivityThread : JClass)
  : M (option Application) :=
  gets application.

(** A method called on [null] or [undefined] raises a [TypeError]. *)
Definition receiver {A} (method : string) (o : option A) : M A :=
  match o with
  | Some a => ret a
  | None => throw (TypeError (lit method))
  end.

(** [app.getApplicationContext()], [ctx.getPackageName()],
    [ctx.getPackageManager()]: the context and the package manager of the
    application are described by the application itself. *)
Definition getApplicationContext (app : Application) : M Application := ret app.
Definition Context_getPackageName (ctx : Application) : M JsString :=
  ret (package_name ctx).
Definition getPackageManager (ctx : Application) : M Application := ret ctx.

(** [pm.getPackageInfo(name, flags).versionCode.value] *)
Definition getPackageInfo_versionCode (pm : Application) (name : JsString) (flags : Z)
  : M Z :=
  if bool_decide (name = package_name pm) then ret (version_code pm)
  else throw (JavaException (lit "android.content.pm.PackageManager$NameNotFoundException")).

(** [Module.findBaseAddress(name)]: [None] is [null]. *)
Definition findBaseAddress (name : JsString) : M (option Z) :=
  gets (fun h => modules h !! name).

(** ** Host: the two log sinks *)

Definition Log_write (p : Priority) (Log : JClass) (tag message : JsString)
  : M Undefined :=
  modify (fun h => with_logcat (logcat h ++ [(p, tag, message)]) h).

Definition Log_e := Log_write PError.
Definition Log_w := Log_write PWarn.
Definition Log_i := Log_write PInfo.
Definition Log_v := Log_write PVerbose.
Definition Log_d := Log_write PDebug.

Definition console_write (s : Stream) (message : JsString) : M Undefined :=
  modify (fun h => with_console (console h ++ [(s, message)]) h).

Definition console_error := console_write SError.
Definition console_warn := console_write SWarn.
Definition console_info := console_write SInfo.
Definition console_log := console_write SLog.

(** ** Host: [java.net] and [java.io]

    The response a URL serves is the list of its lines; a URL the network
    does not serve fails to connect. *)

Definition io_exception : JsError := JavaException (lit "java.io.IOException").

(** [URL.$new(url)] *)
Definition URL_new (URL : JClass) (url : JsString) : M Wrapper := alloc (JUrl url).

(** [url_obj.openConnection()] *)
Definition openConnection (u : Wrapper) : M Wrapper :=
  fun h =>
    match heap h !! w_handle u with
    | Some (JUrl spec) => alloc (JUrlConnection spec) h
    | _ => (Throw (TypeError (lit "openConnection")), h)
    end.

(** [urlConnection.getInputStream()]: connects, which [connections] records. *)
Definition getInputStream (c : Wrapper) : M Wrapper :=
  fun h =>
    match heap h !! w_handle c with
    | Some (JUrlConnection url) =>
        let h' := with_connections (connections h ++ [url]) h in
        match network h !! url with
        | Some lines => alloc (JInputStream lines) h'
        | None => (Throw io_exception, h')
        end
    | _ => (Throw (TypeError (lit "getInputStream")), h)
    end.

(** [InputStreamReader.$new(stream)] *)
Definition InputStreamReader_new (InputStreamReader : JClass) (stream : Wrapper)
  : M Wrapper :=
  alloc (JInputStreamReader (w_handle stream)).

(** [BufferedReader.$new(reader)] *)
Definition BufferedReader_new (BufferedReader : JClass) (reader : Wrapper)
  : M Wrapper :=
  alloc (JBufferedReader (w_handle reader) false).

(** [StringBuilder.$new()] *)
Definition StringBuilder_new (StringBuilder : JClass) : M Wrapper :=
  alloc (JStringBuilder []).

(** [bufferedReader.readLine()]: [None] is [null], the end of the stream. *)
Definition readLine (br : Wrapper) : M (option JsString) :=
  fun h =>
    match heap h !! w_handle br with
    | Some (JBufferedReader reader closed) =>
        if closed then (Throw io_exception, h)
        else
          match heap h !! reader with
          | Some (JInputStreamReader stream) =>
              match heap h !! stream with
              | Some (JInputStream []) => (Ret None, h)
              | Some (JInputStream (line :: rest)) =>
                  (Ret (Some line),
                   with_heap (<[stream := JInputStream rest]> (heap h)) h)
              | _ => (Throw io_exception, h)
              end
          | _ => (Throw io_exception, h)
          end
    | _ => (Throw (TypeError (lit "readLine")), h)
    end.

(** [stringBuilder.append(line)] *)
Definition append (sb : Wrapper) (line : JsString) : M Wrapper :=
  fun h =>
    match heap h !! w_handle sb with
    | Some (JStringBuilder content) =>
        (Ret sb,
         with_heap (<[w_handle sb := JStringBuilder (content ++ line)]> (heap h)) h)
    | _ => (Throw (TypeError (lit "append")), h)
    end.

(** [bufferedReader.close()] *)
Definition close (br : Wrapper) : M Undefined :=
  fun h =>
    match heap h !! w_handle br with
    | Some (JBufferedReader reader _) =>
        (Ret undefined,
         with_heap (<[w_handle br := JBufferedReader reader true]> (heap h)) h)
    | _ => (Throw (TypeError (lit "close")), h)
    end.

(** [stringBuilder.toString()] *)
Definition toString (sb : Wrapper) : M JsString :=
  fun h =>
    match heap h !! w_handle sb with
    | Some (JStringBuilder content) => (Ret content, h)
    | _ => (Throw (TypeError (lit "toString")), h)
    end.

(** ** Concrete hosts for the examples *)

(** A codec for 7-bit text, where UTF-8 and UTF-16 coincide. *)
Definition ascii_decode (bs : list byte) : option JsString :=
  if forallb (fun b => byte_value b <? 128) bs then Some (map byte_value bs)
  else None.

Definition ascii_encode (s : JsString) : list byte :=
  map (fun c => match Byte.of_N (Z.to_N c) with Some b => b | None => x3f end) s.


(** The bytes [bs] laid out from address [p] on. *)
Definition bytes_at (p : Z) (bs : list byte) : list (Z * byte) :=
  zip (seqZ p (Z.of_nat (length bs))) bs.

(** A 64-bit process with a tiny native string ["hi"] at 16, a heap native
    string at 64 whose characters ["hey"] lie at 256, a managed string and a
    byte buffer, three class loaders and one URL that the network serves. *)
Definition demo_memory : gmap Z byte :=
  list_to_map
    (bytes_at 16 [x04; x68; x69; x00; x00; x00; x00; x00;
                  x00; x00; x00; x00; x00; x00; x00; x00;
                  x00; x00; x00; x00; x00; x00; x00; x00]
     ++ bytes_at 64 [x11; x00; x00; x00; x00; x00; x00; x00;
                     x03; x00; x00; x00; x00; x00; x00; x00;
                     x00; x01; x00; x00; x00; x00; x00; x00]
     ++ bytes_at 256 [x68; x65; x79; x00; x00; x00; x00; x00;
                      x00; x00; x00; x00; x00; x00; x00; x00]).

Definition demo_loaders : list ClassLoader :=
  [ {| loader_handle := 901; loader_own := [lit "java.lang.Object"];
       loader_inherited := [] |};
    {| loader_handle := 902;
       loader_own := [lit "jp.co.ponos.battlecats.MyActivity"];
       loader_inherited := [lit "java.lang.Object"] |};
    {| loader_handle := 903;
       loader_own := [lit "jp.co.ponos.battlecats.MyActivity"];
       loader_inherited := [lit "java.lang.Object"] |} ].

Definition demo_url : JsString := lit "https://example.org/list.tsv".

Definition demo_class : JsString := lit "jp.co.ponos.battlecats.MyActivity".

Definition missing_class : JsString := lit "com.example.Missing".

Definition demo_host : Host :=
  {| pointer_width := Ptr64;
     arch := lit "arm64";
     modules := {[ lit "libnative-lib.so" := 0x7100000000 ]};
     memory := demo_memory;
     heap := {[ 4096 := JString (lit "cat");
                4104 := JByteBuffer 3 [x01; x7f; xff] ]};
     application :=
       Some {| package_name := lit "jp.co.ponos.battlecats";
               version_code := 130100 |};
     loaders := demo_loaders;
     network := {[ demo_url := [lit "alpha"; lit "beta"] ]};
     logcat := []; console := []; consulted := []; connections := [] |}.

(** The same process before the application object exists, with no module
    loaded. *)
Definition early_host : Host :=
  {| pointer_width := Ptr64; arch := lit "arm64"; modules := ∅;
     memory := demo_memory; heap := ∅; application := None; loaders := [];
     network := ∅; logcat := []; console := []; consulted := [];
     connections := [] |}.

(** A process whose only mapped bytes are a tiny native string at 32 with
    the characters ["abc"] and no terminator. *)
Definition ragged_host : Host :=
  {| pointer_width := Ptr64; arch := lit "arm64"; modules := ∅;
     memory := list_to_map (bytes_at 32 [x06; x61; x62; x63]);
     heap := ∅; application := None; loaders := []; network := ∅;
     logcat := []; console := []; consulted := []; connections := [] |}.


(** ** The script *)

Section Script.

(** The engine's conversions, which the script only calls: the UTF-8 codec
    behind [readUtf8String] and [writeUtf8String], the string conversion of a
    template literal, and [JSON.stringify] as a template literal prints it. *)
Variable utf8_decode : list byte -> option JsString.
Variable utf8_encode : JsString -> list byte.
Variable ToString : JsValue -> JsString.
Variable JSON_stringify : JsValue -> JsString.

(** [p.readUtf8String()]: [null] at the null pointer, else the decoded bytes
    up to the first NUL. *)
Definition readUtf8String (p : Z) : M (option JsString) :=
  fun h =>
    if decide (p = 0) then (Ret None, h)
    else
      match scan_cstring (S (size (memory h))) (memory h) p with
      | Found bs =>
          match utf8_decode bs with
          | Some s => (Ret (Some s), h)
          | None => (Throw DecodeError, h)
          end
      | Fault a => (Throw (AccessViolation a), h)
      | Unfinished => (OutOfFuel, h)
      end.

(** [p.writeUtf8String(content)] *)
Definition writeUtf8String (p : Z) (content : JsString) : M Undefined :=
  fun h =>
    match store_bytes (memory h) p (cstring (utf8_encode content)) with
    | (m, None) => (Ret undefined, with_memory m h)
    | (m, Some a) => (Throw (AccessViolation a), with_memory m h)
    end.

Definition logError (message : JsString) : M Undefined :=
  Java_perform (
    let* Log := Java_use (lit "android.util.Log") in
    Log_e Log (lit "tbcml") message >>
    console_error message).

Definition logWarning (message : JsString) : M Undefined :=
  Java_perform (
    let* Log := Java_use (lit "android.util.Log") in
    Log_w Log (lit "tbcml") message >>
    console_warn message).

Definition logInfo (message : JsString) : M Undefined :=
  Java_perform (
    let* Log := Java_use (lit "android.util.Log") in
    Log_i Log (lit "tbcml") message >>
    console_info message).

Definition logVerbose (message : JsString) : M Undefined :=
  Java_perform (
    let* Log := Java_use (lit "android.util.Log") in
    Log_v Log (lit "tbcml") message >>
    console_log message).

Definition logDebug (message : JsString) : M Undefined :=
  Java_perform (
    let* Log := Java_use (lit "android.util.Log") in
    Log_d Log (lit "tbcml") message >>
    console_log message).

(** [level === "..."] of a [case] label *)
Definition strict_equals (v : JsValue) (label : string) : bool :=
  match v with
  | JsStr s => bool_decide (s = lit label)
  | _ => false
  end.

(** [log(message, level = "info")]: an omitted or [undefined] level takes the
    default. *)
Definition log (message : JsString) (level : JsValue) : M Undefined :=
  let level := match level with JsUndefined => JsStr (lit "info") | v => v end in
  if strict_equals level "error" then logError message
  else if strict_equals level "warning" then logWarning message
  else if strict_equals level "info" then logInfo message
  else if strict_equals level "verbose" then logVerbose message
  else if strict_equals level "debug" then logDebug message
  else logInfo message.

Definition getBaseAddress : M (option Z) :=
  let* base_address := findBaseAddress (lit "libnative-lib.so") in
  match base_address with
  | None => ret None
  | Some base => let* p := add base 4096 in ret (Some p)
  end.

Definition readStdString (address : Z) : M (option JsString) :=
  let* b := readU8 address in
  let isTiny := Z.land b 1 =? 0 in
  if isTiny then
    let* p := add address 1 in
    readUtf8String p
  else
    let* size := gets pointerSize in
    let* q := add address (2 * size) in
    let* p := readPointer q in
    readUtf8String p.

Definition readJString (address : Z) : M Wrapper :=
  let* klass := Java_use (lit "java.lang.String") in
  Java_cast address klass.

Definition writeStdString (address : Z) (content : JsString) : M Undefined :=
  let* b := readU8 address in
  let isTiny := Z.land b 1 =? 0 in
  if isTiny then
    let* p := add address 1 in
    writeUtf8String p content
  else
    let* size := gets pointerSize in
    let* q := add address (2 * size) in
    let* p := readPointer q in
    writeUtf8String p content.

Definition writeJString (address : Z) (content : JsString) : M Undefined :=
  let* klass := Java_use (lit "java.lang.String") in
  let* w := Java_cast address klass in
  String_new w content >>
  ret undefined.

(** The [for] loop of [readByteBuffer], with [n] iterations left at index
    [i]. *)
Fixpoint readByteBuffer_loop (bb : Wrapper) (n : nat) (i : Z) (data : JsString)
  : M JsString :=
  match n with
  | O => ret data
  | S n' =>
      let* b := ByteBuffer_get bb i in
      readByteBuffer_loop bb n' (i + 1) (data ++ fromCharCode b)
  end.

Definition readByteBuffer (address : Z) : M JsString :=
  let* klass := Java_use (lit "java.nio.ByteBuffer") in
  let* bb := Java_cast address klass in
  let* limit := ByteBuffer_limit bb in
  readByteBuffer_loop bb (Z.to_nat limit) 0 [].

(** The [for ... in] loop of [getJavaClass] over the loaders left: the
    factory the loop leaves in [classFactory], [None] for [undefined]. *)
Fixpoint getJavaClass_loop (classLoaders : list ClassLoader) (className : JsString)
  : M (option ClassFactory) :=
  match classLoaders with
  | [] => ret None
  | classLoader :: rest =>
      try_catch
        (findClass classLoader className >>
         let* classFactory := ClassFactory_get classLoader in
         ret (Some classFactory))
        (fun e => getJavaClass_loop rest className)
  end.

Definition getJavaClass (className : JsString) : M JClass :=
  let* classLoaders := enumerateClassLoadersSync in
  let* classFactory := getJavaClass_loop classLoaders className in
  let* factory := receiver "use" classFactory in
  ClassFactory_use factory className.


Definition is_64_bit : M bool :=
  let* size := gets pointerSize in
  ret (size =? 8).

Definition getPackageName : M JsString :=
  let* ActivityThread := Java_use (lit "android.app.ActivityThread") in
  let* application := currentApplication ActivityThread in
  let* app := receiver "getPackageName" application in
  Context_getPackageName app.

Definition getPackageVersion : M Z :=
  let* ActivityThread := Java_use (lit "android.app.ActivityThread") in
  let* application := currentApplication ActivityThread in
  let* app := receiver "getApplicationContext" application in
  let* context := getApplicationContext app in
  let* packageManager := getPackageManager context in
  let* name := Context_getPackageName context in
  getPackageInfo_versionCode packageManager name 0.

(** The [while] loop of [download_file]. *)
Fixpoint download_file_loop (fuel : nat) (bufferedReader stringBuilder : Wrapper)
  : M Undefined :=
  match fuel with
  | O => fun h => (OutOfFuel, h)
  | S fuel' =>
      let* inputLine := readLine bufferedReader in
      match inputLine with
      | None => ret undefined
      | Some line =>
          append stringBuilder line >>
          download_file_loop fuel' bufferedReader stringBuilder
      end
  end.

Definition download_file (fuel : nat) (url : JsString) : M JsString :=
  let* URL := Java_use (lit "java.net.URL") in
  let* BufferedReader := Java_use (lit "java.io.BufferedReader") in
  let* InputStreamReader := Java_use (lit "java.io.InputStreamReader") in
  let* StringBuilder := Java_use (lit "java.lang.StringBuilder") in
  let* url_obj := URL_new URL url in
  let* urlConnection := openConnection url_obj in
  let* stream := getInputStream urlConnection in
  let* inputStreamReader := InputStreamReader_new InputStreamReader stream in
  let* bufferedReader := BufferedReader_new BufferedReader inputStreamReader in
  let* stringBuilder := StringBuilder_new StringBuilder in
  download_file_loop fuel bufferedReader stringBuilder >>
  close bufferedReader >>
  toString stringBuilder.





(** ** Specification vocabulary *)

(** The console stream a log priority goes to. *)
Definition stream_of (p : Priority) : Stream :=
  match p with
  | PError => SError
  | PWarn => SWarn
  | PInfo => SInfo
  | PVerbose => SLog
  | PDebug => SLog
  end.

(** One log emission: an entry in [logcat] under the tag [tbcml] and a line
    on the console. *)
Definition emit (p : Priority) (message : JsString) (h : Host) : Host :=
  with_console (console h ++ [(stream_of p, message)])
    (with_logcat (logcat h ++ [(p, lit "tbcml", message)]) h).



(** The level names that [log] gives a helper of their own. *)
Definition named_levels : list JsValue :=
  [JsStr (lit "error"); JsStr (lit "warning"); JsStr (lit "info");
   JsStr (lit "verbose"); JsStr (lit "debug")].

(** [bs] lies in memory from [p] on. *)
Fixpoint holds_bytes (m : gmap Z byte) (p : Z) (bs : list byte) : bool :=
  match bs with
  | [] => true
  | b :: bs' => bool_decide (load m p = Some b) && holds_bytes m (p + 1) bs'
  end.

(** The NUL-terminated string [bs] lies in memory at [p]. *)
Definition holds_cstring (m : gmap Z byte) (p : Z) (bs : list byte) : bool :=
  forallb (fun b => negb (bool_decide (b = x00))) bs
  && holds_bytes m p (bs ++ [x00]).

(** The UTF-8 string stored at [p] is [s]. *)
Definition string_at (h : Host) (p : Z) (s : JsString) : Prop :=
  ∃ bs, holds_cstring (memory h) p bs = true ∧ utf8_decode bs = Some s.

(** The pointer stored at [q] is [p]. *)
Definition pointer_at (h : Host) (q p : Z) : Prop :=
  ∃ bs, Z.of_nat (length bs) = pointerSize h ∧
        holds_bytes (memory h) q bs = true ∧ little_endian bs = p.

(** The location of the characters of the native string at [address], as the
    discriminator selects it: inline past the first byte of a tiny string,
    behind the pointer in the third word of a heap string. *)
Definition storage (address : Z) : M Z :=
  let* b := readU8 address in
  if Z.land b 1 =? 0 then add address 1
  else
    let* size := gets pointerSize in
    let* q := add address (2 * size) in
    readPointer q.

Definition is_tiny (h : Host) (address : Z) : bool :=
  match load (memory h) address with
  | Some b => Z.land (byte_value b) 1 =? 0
  | None => false
  end.

(** Address [a] is outside the [n] bytes from [p] on. *)
Definition clear_of (p : Z) (n : nat) (a : Z) : bool :=
  (a <? p) || (p + Z.of_nat n <=? a).

(** [content] fits the native string at [address]: the NUL-terminated
    representation can hold it (its encoding, cut at the first NUL, decodes to
    it again), and the bytes written for it stay clear of the fields that
    select the storage, the discriminator byte and, for a heap string, the
    pointer slot. *)
Definition fits (h : Host) (address : Z) (content : JsString) : bool :=
  let n := length (cstring (utf8_encode content)) in
  bool_decide (utf8_decode (until_nul (utf8_encode content)) = Some content) &&
  match storage address h with
  | (Ret p, _) =>
      clear_of p n address &&
      (is_tiny h address ||
       forallb (clear_of p n)
         (seqZ (pointer_plus h address (2 * pointerSize h)) (pointerSize h)))
  | _ => false
  end.


(** * Properties *)

(** ** Logging *)

Lemma logError_emits message h :
  logError message h = (Ret undefined, emit PError message h).
Proof. reflexivity. Qed.

Lemma logWarning_emits message h :
  logWarning message h = (Ret undefined, emit PWarn message h).
Proof. reflexivity. Qed.

Lemma logInfo_emits message h :
  logInfo message h = (Ret undefined, emit PInfo message h).
Proof. reflexivity. Qed.

Lemma logVerbose_emits message h :
  logVerbose message h = (Ret undefined, emit PVerbose message h).
Proof. reflexivity. Qed.

Lemma logDebug_emits message h :
  logDebug message h = (Ret undefined, emit PDebug message h).
Proof. reflexivity. Qed.

Lemma strict_equals_other (level : JsValue) (label : string) :
  level ≠ JsStr (lit label) → strict_equals level label = false.
Proof.
  intros Hne. destruct level; simpl; try reflexivity.
  apply bool_decide_eq_false. intros ->. by apply Hne.
Qed.

(** C7.  [log] hands the message to the helper of the level's name for the
    five named levels, and to [logInfo] when the level is omitted and for
    every other level value. *)
Theorem log_dispatch (message : JsString) (level : JsValue) :
  log message (JsStr (lit "error")) = logError message ∧
  log message (JsStr (lit "warning")) = logWarning message ∧
  log message (JsStr (lit "info")) = logInfo message ∧
  log message (JsStr (lit "verbose")) = logVerbose message ∧
  log message (JsStr (lit "debug")) = logDebug message ∧
  log message JsUndefined = logInfo message ∧
  (level ∉ named_levels → log message level = logInfo message).
Proof.
  repeat split; try reflexivity.
  intros Hother. unfold named_levels in Hother.
  repeat (apply not_elem_of_cons in Hother as [? Hother]).
  destruct level as [| | b | n | s | p | items | fields]; try reflexivity.
  unfold log.
  by rewrite !strict_equals_other.
Qed.

(** ** The base address *)

Lemma getBaseAddress_run (h : Host) :
  getBaseAddress h =
    (match modules h !! lit "libnative-lib.so" with
     | None => Ret None
     | Some base => Ret (Some (pointer_plus h base 4096))
     end, h).
Proof.
  unfold getBaseAddress, bind, findBaseAddress, gets.
  by destruct (modules h !! lit "libnative-lib.so").
Qed.

(** C3.  [getBaseAddress] returns [null] exactly when the host's lookup of
    the base address of [libnative-lib.so] returns [null]; when the lookup
    returns a base address it returns the pointer 4096 past it, by the
    pointer arithmetic of the host.  It raises nothing and leaves the host
    state as it was. *)
Theorem getBaseAddress_offset (h : Host) :
  ((getBaseAddress h).1 = Ret None ↔
   modules h !! lit "libnative-lib.so" = None) ∧
  (∀ base, modules h !! lit "libnative-lib.so" = Some base →
           (getBaseAddress h).1 = Ret (Some (pointer_plus h base 4096))) ∧
  (getBaseAddress h).2 = h.
Proof.
  rewrite getBaseAddress_run.
  destruct (modules h !! lit "libnative-lib.so") as [base |]; simpl.
  - repeat split; try done. by intros ? [= <-].
  - repeat split; done.
Qed.

Lemma pointer_plus_exact (h : Host) (p n : Z) :
  0 ≤ p + n < 2 ^ (8 * pointerSize h) → pointer_plus h p n = p + n.
Proof. intros ?. unfold pointer_plus. by apply Z.mod_small. Qed.

(** ** Process memory *)

Lemma load_Some m p b : load m p = Some b → p ≠ 0 ∧ m !! p = Some b.
Proof. unfold load. by case_decide. Qed.

Lemma load_lookup m p : p ≠ 0 → load m p = m !! p.
Proof. intros ?. unfold load. by case_decide. Qed.

Lemma holds_bytes_cons m p b bs :
  holds_bytes m p (b :: bs) = true ↔
  load m p = Some b ∧ holds_bytes m (p + 1) bs = true.
Proof.
  clear utf8_decode utf8_encode ToString JSON_stringify.
  simpl. rewrite andb_true_iff, bool_decide_eq_true. tauto.
Qed.

Lemma holds_bytes_load m p bs i b :
  holds_bytes m p bs = true → bs !! i = Some b →
  load m (p + Z.of_nat i) = Some b.
Proof.
  revert p i. induction bs as [| b' bs IH]; intros p i Hm Hi; [done |].
  apply holds_bytes_cons in Hm as [Hp Hm]. destruct i as [| i]; simpl in Hi.
  - injection Hi as ->. by rewrite Z.add_0_r.
  - replace (p + Z.of_nat (S i)) with (p + 1 + Z.of_nat i) by lia. by apply IH.
Qed.

Lemma holds_bytes_load_bytes m p bs :
  holds_bytes m p bs = true → load_bytes m p (length bs) = inr bs.
Proof.
  revert p. induction bs as [| b bs IH]; intros p Hm; [done |].
  apply holds_bytes_cons in Hm as [Hp Hm]. simpl. by rewrite Hp, (IH _ Hm).
Qed.

(** A run of mapped addresses is no longer than the memory is large. *)
Lemma mapped_run_size (m : gmap Z byte) (p : Z) (n : nat) :
  (∀ i : nat, (i < n)%nat → is_Some (m !! (p + Z.of_nat i))) →
  (n ≤ size m)%nat.
Proof.
  intros Hrun.
  assert (list_to_set (seqZ p (Z.of_nat n)) ⊆ dom m) as Hsub.
  { intros a Ha. apply elem_of_list_to_set, elem_of_seqZ in Ha.
    apply elem_of_dom. replace a with (p + Z.of_nat (Z.to_nat (a - p))) by lia.
    apply Hrun. lia. }
  apply subseteq_size in Hsub.
  rewrite size_list_to_set, length_seqZ, size_dom in Hsub by apply NoDup_seqZ.
  lia.
Qed.

Lemma scan_cstring_unfinished fuel m p :
  scan_cstring fuel m p = Unfinished →
  ∀ i : nat, (i < fuel)%nat → is_Some (m !! (p + Z.of_nat i)).
Proof.
  revert p. induction fuel as [| fuel IH]; intros p Hscan i Hi; [lia |].
  simpl in Hscan. destruct (load m p) as [b |] eqn:Hp; [| done].
  destruct (decide (b = x00)); [done |].
  destruct (scan_cstring fuel m (p + 1)) eqn:Hrest; try done.
  destruct i as [| i].
  - rewrite Z.add_0_r. apply load_Some in Hp as [_ ->]. by eexists.
  - replace (p + Z.of_nat (S i)) with (p + 1 + Z.of_nat i) by lia.
    apply IH; [done | lia].
Qed.

(** The scan of [readUtf8String] always comes to an end. *)
Lemma scan_cstring_finishes m p :
  scan_cstring (S (size m)) m p ≠ Unfinished.
Proof.
  intros Hscan. pose proof (scan_cstring_unfinished _ _ _ Hscan) as Hrun.
  apply mapped_run_size in Hrun. lia.
Qed.

Lemma holds_cstring_spec m p bs :
  holds_cstring m p bs = true ↔
  Forall (λ b, b ≠ x00) bs ∧ holds_bytes m p (bs ++ [x00]) = true.
Proof.
  unfold holds_cstring. rewrite andb_true_iff, forallb_forall, Forall_forall.
  split; intros [Hnz Hm]; (split; [| done]); intros b Hb.
  - apply list_elem_of_In, Hnz in Hb.
    by apply negb_true_iff, bool_decide_eq_false in Hb.
  - apply negb_true_iff, bool_decide_eq_false, Hnz. by apply list_elem_of_In.
Qed.

Lemma scan_cstring_found fuel m p bs :
  holds_cstring m p bs = true → (length bs < fuel)%nat →
  scan_cstring fuel m p = Found bs.
Proof.
  rewrite holds_cstring_spec. intros [Hnz Hm]. revert p fuel Hm.
  induction Hnz as [| b bs Hb Hnz IH]; intros p fuel Hm Hfuel;
    (destruct fuel as [| fuel]; [simpl in Hfuel; lia |]);
    simpl in Hm |- *; apply andb_true_iff in Hm as [Hp Hm];
    apply bool_decide_eq_true in Hp; rewrite Hp.
  - by rewrite decide_True.
  - rewrite decide_False by done. rewrite (IH (p + 1) fuel); [done | done |].
    simpl in Hfuel. lia.
Qed.

Lemma holds_cstring_size m p bs :
  holds_cstring m p bs = true → (length bs < size m)%nat.
Proof.
  rewrite holds_cstring_spec. intros [_ Hm].
  assert (length (bs ++ [x00]) ≤ size m)%nat as Hle.
  { apply (mapped_run_size m p). intros i Hi.
    apply lookup_lt_is_Some_2 in Hi as [b Hb].
    apply (holds_bytes_load _ _ _ _ _ Hm), load_Some in Hb as [_ ->]. by eexists. }
  rewrite length_app in Hle. simpl in Hle. lia.
Qed.

(** [readUtf8String] returns the string that lies at the pointer. *)
Lemma readUtf8String_string_at h p s :
  string_at h p s → readUtf8String p h = (Ret (Some s), h).
Proof.
  intros (bs & Hm & Hs). unfold readUtf8String.
  assert (p ≠ 0) as Hp.
  { intros ->. apply holds_cstring_spec in Hm as [_ Hm].
    by destruct bs. }
  rewrite decide_False by done.
  rewrite (scan_cstring_found _ _ _ bs), Hs; [done | done |].
  apply holds_cstring_size in Hm. lia.
Qed.

Lemma readUtf8String_finishes p h : (readUtf8String p h).1 ≠ OutOfFuel.
Proof.
  unfold readUtf8String. case_decide; [done |].
  pose proof (scan_cstring_finishes (memory h) p).
  destruct (scan_cstring _ _ _); [| done | done].
  by destruct (utf8_decode bs).
Qed.

Lemma readPointer_pointer_at h q p :
  pointer_at h q p → readPointer q h = (Ret p, h).
Proof.
  intros (bs & Hlen & Hm & Hp). unfold readPointer.
  rewrite <- Hlen, Nat2Z.id, (holds_bytes_load_bytes _ _ _ Hm). by rewrite Hp.
Qed.

Lemma discriminator_bit (b : byte) :
  (Z.land (byte_value b) 1 =? 0) = negb (Z.testbit (byte_value b) 0).
Proof. by destruct b. Qed.

(** ** Native strings *)

(** C2.  [readStdString] decodes the native string by its discriminator: with
    the least-significant bit of the byte at [address] clear it returns the
    string stored inline at [address + 1], and with the bit set the string at
    the pointer stored at [address + 2 * pointerSize]. *)
Theorem readStdString_decodes (h : Host) (address : Z) (b : byte) (p : Z)
    (s : JsString) :
  load (memory h) address = Some b →
  (if Z.testbit (byte_value b) 0
   then pointer_at h (pointer_plus h address (2 * pointerSize h)) p
   else p = pointer_plus h address 1) →
  string_at h p s →
  readStdString address h = (Ret (Some s), h).
Proof.
  intros Hb Hp Hs. unfold readStdString, bind, readU8. rewrite Hb.
  rewrite discriminator_bit. destruct (Z.testbit (byte_value b) 0); simpl.
  - by rewrite (readPointer_pointer_at _ _ _ Hp), (readUtf8String_string_at _ _ _ Hs).
  - subst p. by rewrite (readUtf8String_string_at _ _ _ Hs).
Qed.

Lemma readStdString_unmapped h address :
  load (memory h) address = None →
  readStdString address h = (Throw (AccessViolation address), h).
Proof. intros Hb. unfold readStdString, bind, readU8. by rewrite Hb. Qed.

Lemma storage_state address h : (storage address h).2 = h.
Proof.
  unfold storage, bind, readU8, readPointer.
  destruct (load (memory h) address); [| done].
  destruct (_ =? _); [done |]. simpl. by destruct (load_bytes _ _ _).
Qed.

Lemma storage_finishes address h : (storage address h).1 ≠ OutOfFuel.
Proof.
  unfold storage, bind, readU8, readPointer.
  destruct (load (memory h) address); [| done].
  destruct (_ =? _); [done |]. simpl. by destruct (load_bytes _ _ _).
Qed.

(** Both helpers go through the location that [storage] selects. *)
Lemma readStdString_storage address h :
  readStdString address h = (let* p := storage address in readUtf8String p) h.
Proof.
  unfold readStdString, storage, bind, readU8.
  destruct (load (memory h) address); [| done].
  destruct (_ =? _); [done |]. simpl. by destruct (readPointer _ _) as [[] ?].
Qed.

Lemma writeStdString_storage address content h :
  writeStdString address content h =
  (let* p := storage address in writeUtf8String p content) h.
Proof.
  unfold writeStdString, storage, bind, readU8.
  destruct (load (memory h) address); [| done].
  destruct (_ =? _); [done |]. simpl. by destruct (readPointer _ _) as [[] ?].
Qed.

Lemma readStdString_finishes address h : (readStdString address h).1 ≠ OutOfFuel.
Proof.
  rewrite readStdString_storage. unfold bind.
  pose proof (storage_finishes address h).
  destruct (storage address h) as [[p | e |] h']; [| done | done].
  apply readUtf8String_finishes.
Qed.

Lemma clear_of_spec p n a :
  clear_of p n a = true ↔ a < p ∨ p + Z.of_nat n ≤ a.
Proof. unfold clear_of. rewrite orb_true_iff, Z.ltb_lt, Z.leb_le. tauto. Qed.

Lemma store_Some m p b m' :
  store m p b = Some m' → p ≠ 0 ∧ m' = <[p := b]> m.
Proof.
  unfold store. destruct (load m p) eqn:Hp; [| done].
  intros [= <-]. by apply load_Some in Hp as [? _].
Qed.

(** A write leaves the bytes outside its range as they were, also when it
    faults on the way. *)
Lemma store_bytes_clear m p bs m' r a :
  store_bytes m p bs = (m', r) → clear_of p (length bs) a = true →
  load m' a = load m a.
Proof.
  revert m p. induction bs as [| b bs IH]; intros m p Hw Ha; simpl in Hw.
  - by injection Hw as <- _.
  - apply clear_of_spec in Ha. simpl in Ha.
    destruct (store m p b) as [m1 |] eqn:Hst; [| by injection Hw as <- _].
    apply store_Some in Hst as [Hp ->].
    rewrite (IH _ _ Hw) by (apply clear_of_spec; lia).
    unfold load. case_decide; [done |]. apply lookup_insert_ne. lia.
Qed.

Lemma store_bytes_holds m p bs m' :
  store_bytes m p bs = (m', None) → holds_bytes m' p bs = true.
Proof.
  revert m p. induction bs as [| b bs IH]; intros m p Hw; [done |].
  simpl in Hw. destruct (store m p b) as [m1 |] eqn:Hst; [| done].
  apply holds_bytes_cons. split; [| by apply (IH m1)].
  rewrite (store_bytes_clear _ _ _ _ _ p Hw) by (apply clear_of_spec; lia).
  apply store_Some in Hst as [Hp ->].
  rewrite load_lookup by done. apply lookup_insert_eq.
Qed.

Lemma until_nul_nonzero bs : Forall (λ b, b ≠ x00) (until_nul bs).
Proof.
  induction bs as [| b bs IH]; simpl; [constructor |].
  case_decide; by constructor.
Qed.




(** ** Managed strings *)

Lemma fresh_handle_other (g : gmap Z JObject) (a : Z) (o : JObject) :
  g !! a = Some o → a ≠ fresh (dom g).
Proof.
  intros Ha ->. apply (is_fresh (dom g)), elem_of_dom. by eexists.
Qed.

Lemma fresh_handle_None (g : gmap Z JObject) : g !! fresh (dom g) = None.
Proof. apply not_elem_of_dom, is_fresh. Qed.

(** C10.  [writeJString] does not change the managed string at [address]:
    [readJString] gives the same wrapper after the call as before it, and the
    object behind the handle is the one that was there.  When the cast
    succeeds the call builds one new string object from [content], at a
    handle that nothing refers to; when it fails the host state is left as it
    was. *)
Theorem writeJString_keeps_string (h : Host) (address : Z) (content : JsString) :
  let h' := (writeJString address content h).2 in
  (readJString address h').1 = (readJString address h).1 ∧
  heap h' !! address = heap h !! address ∧
  match (readJString address h).1 with
  | Ret w =>
      writeJString address content h =
        (Ret undefined,
         with_heap (<[fresh (dom (heap h)) := JString content]> (heap h)) h) ∧
      heap h !! fresh (dom (heap h)) = None
  | _ => h' = h
  end.
Proof.
  unfold writeJString, readJString, bind, Java_use, ret, Java_cast. simpl.
  destruct (heap h !! address) as [o |] eqn:Ho; simpl.
  - destruct (instance_of o (lit "java.lang.String")) eqn:Hinst; simpl.
    + rewrite lookup_insert_ne by (symmetry; by eapply fresh_handle_other).
      rewrite Ho, Hinst. repeat split. apply fresh_handle_None.
    + by rewrite Ho, Hinst.
  - by rewrite Ho.
Qed.

(** ** Byte buffers *)

(** The character code [readByteBuffer] produces for a byte. *)
Lemma readByteBuffer_loop_codes bb limit bytes h n i data :
  heap h !! w_handle bb = Some (JByteBuffer limit bytes) →
  limit ≤ Z.of_nat (length bytes) →
  0 ≤ i → i + Z.of_nat n ≤ limit →
  readByteBuffer_loop bb n i data h =
    (Ret (data ++ map (λ b, byte_signed b mod 65536)
                      (take n (drop (Z.to_nat i) bytes))), h).
Proof.
  intros Hbb Hcap. revert i data.
  induction n as [| n IH]; intros i data Hi Hn; simpl.
  - by rewrite app_nil_r.
  - unfold bind, ByteBuffer_get. rewrite Hbb.
    destruct (Z.leb_spec 0 i); [| lia]. destruct (Z.ltb_spec i limit); [| lia].
    simpl. destruct (bytes !! Z.to_nat i) as [b |] eqn:Hb.
    + rewrite IH by lia. rewrite <- app_assoc. unfold fromCharCode. simpl.
      replace (Z.to_nat (i + 1)) with (S (Z.to_nat i)) by lia.
      by rewrite (drop_S _ _ _ Hb).
    + apply lookup_ge_None in Hb. lia.
Qed.

Lemma readByteBuffer_codes h address limit bytes :
  heap h !! address = Some (JByteBuffer limit bytes) →
  0 ≤ limit ≤ Z.of_nat (length bytes) →
  readByteBuffer address h =
    (Ret (map (λ b, byte_signed b mod 65536) (take (Z.to_nat limit) bytes)), h).
Proof.
  intros Hbb Hlimit. unfold readByteBuffer, bind, Java_use, ret, Java_cast.
  rewrite Hbb. simpl. unfold ByteBuffer_limit. simpl. rewrite Hbb.
  by rewrite (readByteBuffer_loop_codes _ limit bytes) by (done || lia).
Qed.

(** X6.  The string [readByteBuffer] returns has the length of the limit, and
    at an index below the limit the code of the signed byte modulo 65536: the
    value of the byte up to 127, and 65280 more than it from 128 on. *)
Lemma readByteBuffer_length_and_codes h address limit bytes :
  heap h !! address = Some (JByteBuffer limit bytes) →
  0 ≤ limit ≤ Z.of_nat (length bytes) →
  ∃ data, readByteBuffer address h = (Ret data, h) ∧
    Z.of_nat (length data) = limit ∧
    ∀ (i : nat) b, Z.of_nat i < limit → bytes !! i = Some b →
      charCodeAt data i =
        Some (if byte_value b <? 128 then byte_value b else byte_value b + 65280).
Proof.
  intros Hbb Hlimit. eexists. split; [by apply readByteBuffer_codes |].
  split.
  - rewrite length_map, length_take. lia.
  - intros i b Hi Hb. unfold charCodeAt.
    rewrite list_lookup_fmap, lookup_take_lt, Hb by lia. simpl. f_equal.
    unfold byte_signed. destruct b; reflexivity.
Qed.

(** ** Class resolution *)

Lemma with_consulted_same h : with_consulted (consulted h) h = h.
Proof. by destruct h. Qed.

(** A loop over loaders that all fail consults every one of them and leaves
    [classFactory] undefined. *)
Lemma getJavaClass_loop_miss classLoaders className h :
  Forall (λ l, className ∉ loader_own l) classLoaders →
  getJavaClass_loop classLoaders className h =
    (Ret None,
     with_consulted (consulted h ++ map loader_handle classLoaders) h).
Proof.
  intros Hmiss. revert h.
  induction Hmiss as [| l rest Hl Hmiss IH]; intros h; simpl.
  - by rewrite app_nil_r, with_consulted_same.
  - unfold try_catch, bind, findClass. rewrite bool_decide_eq_false_2 by done.
    rewrite IH. simpl. by rewrite <- app_assoc.
Qed.

(** The loop stops at the first loader whose [findClass] succeeds. *)
Lemma getJavaClass_loop_hit before l after className h :
  Forall (λ l', className ∉ loader_own l') before →
  className ∈ loader_own l →
  getJavaClass_loop (before ++ l :: after) className h =
    (Ret (Some {| factory_loader := l |}),
     with_consulted (consulted h ++ map loader_handle (before ++ [l])) h).
Proof.
  intros Hmiss Hl. revert h.
  induction Hmiss as [| l' rest Hl' Hmiss IH]; intros h; simpl.
  - unfold try_catch, bind, findClass. by rewrite bool_decide_eq_true_2.
  - unfold try_catch, bind, findClass. rewrite bool_decide_eq_false_2 by done.
    rewrite IH. simpl. by rewrite <- app_assoc.
Qed.

Lemma first_resolving_loader className (classLoaders : list ClassLoader) :
  Exists (λ l, className ∈ loader_own l) classLoaders →
  ∃ before l after,
    classLoaders = before ++ l :: after ∧
    Forall (λ l', className ∉ loader_own l') before ∧
    className ∈ loader_own l.
Proof.
  induction classLoaders as [| l rest IH]; intros Hex; [by inversion Hex |].
  destruct (decide (className ∈ loader_own l)) as [Hl | Hl].
  - by exists [], l, rest.
  - apply Exists_cons in Hex as [? | Hex]; [done |].
    destruct (IH Hex) as (before & l' & after & -> & Hmiss & Hl').
    exists (l :: before), l', after. repeat split; [by constructor | done].
Qed.

(** C4.  When some enumerated loader resolves [className], [getJavaClass]
    searches the loaders in enumeration order and returns the class that the
    factory of the first loader whose [findClass] succeeds gives; the loaders
    consulted are that one and those before it, none after it. *)
Theorem getJavaClass_first_loader (h : Host) (className : JsString) :
  Exists (λ l, className ∈ loader_own l) (loaders h) →
  ∃ before l after,
    loaders h = before ++ l :: after ∧
    Forall (λ l', className ∉ loader_own l') before ∧
    className ∈ loader_own l ∧
    let h' := with_consulted
                (consulted h ++ map loader_handle (before ++ [l])) h in
    getJavaClass className h =
      ClassFactory_use {| factory_loader := l |} className h' ∧
    getJavaClass className h =
      (Ret {| class_name := className;
              class_loader := Some (loader_handle l) |}, h').
Proof.
  intros Hex.
  destruct (first_resolving_loader _ _ Hex) as (before & l & after & Hsplit & Hmiss & Hl).
  exists before, l, after. repeat split; try done.
  all: unfold getJavaClass, bind, enumerateClassLoadersSync, gets.
  all: rewrite Hsplit, (getJavaClass_loop_hit _ _ _ _ _ Hmiss Hl); simpl.
  - done.
  - unfold ClassFactory_use. simpl. by rewrite bool_decide_eq_true_2.
Qed.

(** C5.  When no enumerated loader resolves [className], [getJavaClass]
    consults every loader, catches each failure, and then fails itself with
    the [TypeError] of calling [use] on the undefined [classFactory]; nothing
    catches that error and no value is returned. *)
Theorem getJavaClass_unresolved (h : Host) (className : JsString) :
  Forall (λ l, className ∉ loader_own l) (loaders h) →
  getJavaClass className h =
    (Throw (TypeError (lit "use")),
     with_consulted (consulted h ++ map loader_handle (loaders h)) h).
Proof.
  intros Hmiss. unfold getJavaClass, bind, enumerateClassLoadersSync, gets.
  by rewrite (getJavaClass_loop_miss _ _ _ Hmiss).
Qed.

(** ** The fetch *)

Ltac name_fresh g x H :=
  pose proof (fresh_handle_None g) as H;
  set (x := fresh (dom g)) in *; clearbody x.

Lemma with_heap_same h : with_heap (heap h) h = h.
Proof. by destruct h. Qed.

Lemma with_heap_twice g g' h : with_heap g (with_heap g' h) = with_heap g h.
Proof. reflexivity. Qed.

(** The loop reads the stream to its end and appends every line to the
    builder. *)
Lemma download_file_loop_drains lines :
  ∀ fuel br sb reader stream acc h,
  heap h !! w_handle br = Some (JBufferedReader reader false) →
  heap h !! reader = Some (JInputStreamReader stream) →
  heap h !! stream = Some (JInputStream lines) →
  heap h !! w_handle sb = Some (JStringBuilder acc) →
  (length lines < fuel)%nat →
  download_file_loop fuel br sb h =
    (Ret undefined,
     with_heap (<[w_handle sb := JStringBuilder (acc ++ concat lines)]>
                  (<[stream := JInputStream []]> (heap h))) h).
Proof.
  induction lines as [| line rest IH];
    intros fuel br sb reader stream acc h Hbr Hreader Hstream Hsb Hfuel;
    (destruct fuel as [| fuel]; [simpl in Hfuel; lia |]); simpl;
    unfold bind, readLine; rewrite Hbr, Hreader, Hstream.
  - simpl. rewrite app_nil_r, (insert_id (heap h) stream) by done.
    by rewrite insert_id, with_heap_same.
  - assert (stream ≠ w_handle sb) by congruence.
    assert (stream ≠ w_handle br) by congruence.
    assert (stream ≠ reader) by congruence.
    unfold append. simpl. rewrite lookup_insert_ne, Hsb by done. simpl.
    assert (w_handle sb ≠ w_handle br) by congruence.
    assert (w_handle sb ≠ reader) by congruence.
    rewrite (IH fuel br sb reader stream (acc ++ line)); simpl;
      [| by simplify_map_eq .. | simpl in Hfuel; lia].
    rewrite !with_heap_twice, <- app_assoc. do 2 f_equal. apply map_eq. intros a.
    rewrite !lookup_insert. by repeat case_decide.
Qed.

(** C6.  [download_file] opens one connection to [url], reads the response
    line by line until [readLine] returns [null], appends every line to the
    builder, closes the reader, and returns the concatenation of the lines.
    Besides the connection, the host state changes only by the objects the
    call creates. *)
Theorem download_file_fetches (h : Host) (url : JsString)
    (lines : list JsString) (fuel : nat) :
  network h !! url = Some lines →
  (length lines < fuel)%nat →
  ∃ h' stream reader bufferedReader stringBuilder,
    download_file fuel url h = (Ret (concat lines), h') ∧
    connections h' = connections h ++ [url] ∧
    heap h' !! stream = Some (JInputStream []) ∧
    heap h' !! reader = Some (JInputStreamReader stream) ∧
    heap h' !! bufferedReader = Some (JBufferedReader reader true) ∧
    heap h' !! stringBuilder = Some (JStringBuilder (concat lines)) ∧
    heap h ⊆ heap h' ∧
    with_heap (heap h) (with_connections (connections h) h') = h.
Proof.
  intros Hnet Hfuel. unfold download_file, bind. simpl.
  name_fresh (heap h) u Hu.
  unfold openConnection. simpl. rewrite lookup_insert_eq. simpl.
  set (g1 := <[u := JUrl url]> (heap h)). name_fresh g1 c Hc.
  unfold getInputStream. simpl. rewrite lookup_insert_eq, Hnet. simpl.
  set (g2 := <[c := JUrlConnection url]> g1). name_fresh g2 s Hs.
  set (g3 := <[s := JInputStream lines]> g2). name_fresh g3 r Hr.
  set (g4 := <[r := JInputStreamReader s]> g3). name_fresh g4 b Hb.
  set (g5 := <[b := JBufferedReader r false]> g4). name_fresh g5 sb Hsb.
  subst g1 g2 g3 g4 g5.
  repeat match goal with
         | H : <[_ := _]> _ !! _ = None |- _ =>
             apply lookup_insert_None in H as [H ?]
         end.
  rewrite (download_file_loop_drains lines fuel _ _ r s []); simpl;
    [| by simplify_map_eq .. | done].
  unfold close. simpl. rewrite lookup_insert_ne, lookup_insert_ne by done.
  rewrite lookup_insert_ne, lookup_insert_eq by done. simpl.
  unfold toString. simpl. rewrite lookup_insert_ne, lookup_insert_eq by done.
  eexists _, s, r, b, sb. split; [reflexivity |]. simpl.
  repeat split; try by simplify_map_eq.
  - apply map_subseteq_spec. intros a o Ha.
    assert (a ≠ u ∧ a ≠ c ∧ a ≠ s ∧ a ≠ r ∧ a ≠ b ∧ a ≠ sb) as (?&?&?&?&?&?)
      by (repeat split; congruence).
    by simplify_map_eq.
  - by destruct h.
Qed.

(** ** The exported entry point *)





Lemma getPackageName_state h : (getPackageName h).2 = h.
Proof.
  unfold getPackageName, bind, currentApplication, gets. simpl.
  by destruct (application h).
Qed.

Lemma getPackageVersion_state h : (getPackageVersion h).2 = h.
Proof.
  unfold getPackageVersion, bind, currentApplication, gets. simpl.
  destruct (application h) as [app |]; [| done]. simpl.
  unfold getPackageInfo_versionCode. by rewrite bool_decide_eq_true_2.
Qed.

Lemma getPackageName_application h app :
  application h = Some app → getPackageName h = (Ret (package_name app), h).
Proof.
  intros Happ. unfold getPackageName, bind, currentApplication, gets. simpl.
  by rewrite Happ.
Qed.

Lemma getPackageVersion_application h app :
  application h = Some app → getPackageVersion h = (Ret (version_code app), h).
Proof.
  intros Happ. unfold getPackageVersion, bind, currentApplication, gets. simpl.
  rewrite Happ. simpl. unfold getPackageInfo_versionCode.
  by rewrite bool_decide_eq_true_2.
Qed.



(** * Further properties of the helpers *)

(** ** Native strings: reads *)

Lemma readUtf8String_state p h : (readUtf8String p h).2 = h.
Proof.
  unfold readUtf8String. case_decide; [done |].
  destruct (scan_cstring _ _ _); [| done | done]. by destruct (utf8_decode bs).
Qed.

(** X1.  [readStdString] only reads: whatever the address holds, the host
    state after the call is the state before it, and the call comes to an end,
    with a value or with an exception. *)
Theorem readStdString_reads_only (address : Z) (h : Host) :
  (readStdString address h).2 = h ∧ (readStdString address h).1 ≠ OutOfFuel.
Proof.
  split; [| apply readStdString_finishes].
  rewrite readStdString_storage. unfold bind.
  pose proof (storage_state address h) as Hst.
  destruct (storage address h) as [[p | e |] h1]; simpl in Hst; subst h1;
    [| done | done].
  apply readUtf8String_state.
Qed.

Lemma scan_cstring_fault fuel m p bs :
  Forall (λ b, b ≠ x00) bs → holds_bytes m p bs = true →
  load m (p + Z.of_nat (length bs)) = None → (length bs < fuel)%nat →
  scan_cstring fuel m p = Fault (p + Z.of_nat (length bs)).
Proof.
  intros Hnz. revert p fuel.
  induction Hnz as [| b bs Hb Hnz IH]; intros p fuel Hm Hend Hfuel;
    (destruct fuel as [| fuel]; [simpl in Hfuel; lia |]); simpl.
  - simpl in Hend. rewrite Z.add_0_r in Hend |- *. by rewrite Hend.
  - apply holds_bytes_cons in Hm as [Hp Hm]. rewrite Hp, decide_False by done.
    rewrite (IH (p + 1) fuel Hm).
    + f_equal. simpl length. lia.
    + rewrite <- Hend. f_equal. simpl length. lia.
    + simpl in Hfuel. lia.
Qed.

Lemma holds_bytes_size m p bs :
  holds_bytes m p bs = true → (length bs ≤ size m)%nat.
Proof.
  intros Hm. apply (mapped_run_size m p). intros i Hi.
  apply lookup_lt_is_Some_2 in Hi as [b Hb].
  apply (holds_bytes_load _ _ _ _ _ Hm), load_Some in Hb as [_ ->]. by eexists.
Qed.

(** X2.  A native string whose characters run to the end of the mapped
    memory without a NUL is not returned cut short: [readStdString] raises the
    access violation of the first unmapped address past its storage. *)
Theorem readStdString_unterminated (h : Host) (address p : Z) (bs : list byte) :
  (storage address h).1 = Ret p →
  p ≠ 0 →
  Forall (λ b, b ≠ x00) bs →
  holds_bytes (memory h) p bs = true →
  load (memory h) (p + Z.of_nat (length bs)) = None →
  readStdString address h =
    (Throw (AccessViolation (p + Z.of_nat (length bs))), h).
Proof.
  intros Hp Hnull Hnz Hm Hend. rewrite readStdString_storage. unfold bind.
  pose proof (storage_state address h) as Hst.
  destruct (storage address h) as [[p' | e |] h1]; simpl in Hst, Hp; subst h1;
    [| done | done].
  injection Hp as ->. unfold readUtf8String. rewrite decide_False by done.
  rewrite (scan_cstring_fault _ _ _ bs); try done.
  apply holds_bytes_size in Hm. lia.
Qed.

(** ** Native strings: writes *)

Lemma with_memory_back m h : with_memory (memory h) (with_memory m h) = h.
Proof. by destruct h. Qed.

(** X3.  [writeStdString] changes process memory only, and there only the
    bytes of the C string it writes at the storage location: every address
    outside them reads as before, also when the write faults on the way.
    When the storage location cannot be found the state is left as it was. *)
Theorem writeStdString_frame (h : Host) (address : Z) (content : JsString) :
  let h' := (writeStdString address content h).2 in
  with_memory (memory h) h' = h ∧
  match (storage address h).1 with
  | Ret p =>
      ∀ a, clear_of p (length (cstring (utf8_encode content))) a = true →
           load (memory h') a = load (memory h) a
  | _ => h' = h
  end.
Proof.
  simpl. rewrite writeStdString_storage. unfold bind.
  pose proof (storage_state address h) as Hst.
  destruct (storage address h) as [[p | e |] h1]; simpl in Hst; subst h1; simpl;
    [| by destruct h | by destruct h].
  unfold writeUtf8String.
  destruct (store_bytes _ _ _) as [m' [a' |]] eqn:Hstore; simpl;
    (split; [apply with_memory_back |]); intros a Ha;
    by apply (store_bytes_clear _ _ _ _ _ _ Hstore).
Qed.

(** X4.  After a completed [writeStdString] the storage location holds the
    bytes of the content up to its first NUL, followed by a NUL, whatever the
    length of the content and whatever the string held before. *)
Theorem writeStdString_stores (h h' : Host) (address p : Z) (content : JsString) :
  (storage address h).1 = Ret p →
  writeStdString address content h = (Ret undefined, h') →
  holds_cstring (memory h') p (until_nul (utf8_encode content)) = true.
Proof.
  clear utf8_decode. intros Hp Hw. rewrite writeStdString_storage in Hw. unfold bind in Hw.
  pose proof (storage_state address h) as Hst.
  destruct (storage address h) as [[p' | e |] h1]; simpl in Hst, Hp; subst h1;
    [| done | done].
  injection Hp as ->. unfold writeUtf8String in Hw.
  destruct (store_bytes _ _ _) as [m' [a |]] eqn:Hstore; [done |].
  injection Hw as <-. simpl. apply holds_cstring_spec.
  split; [apply until_nul_nonzero | by apply (store_bytes_holds (memory h))].
Qed.





(** ** Byte buffers: reads *)

Lemma readByteBuffer_loop_state bb n :
  ∀ i data h, (readByteBuffer_loop bb n i data h).2 = h.
Proof.
  induction n as [| n IH]; intros i data h; simpl; [done |].
  unfold bind, ByteBuffer_get.
  destruct (heap h !! w_handle bb) as [[] |]; try done.
  destruct (_ && _); [| done].
  destruct (bytes !! Z.to_nat i); [apply IH | done].
Qed.

(** X7.  [readByteBuffer] only reads: the host state after the call is the
    state before it.  On a handle that holds no byte buffer it raises an
    exception and returns no string. *)
Theorem readByteBuffer_reads_only (address : Z) (h : Host) :
  (readByteBuffer address h).2 = h ∧
  ((∀ limit bytes, heap h !! address ≠ Some (JByteBuffer limit bytes)) →
   ∃ e, (readByteBuffer address h).1 = Throw e).
Proof.
  unfold readByteBuffer, bind, Java_use, ret, Java_cast. simpl.
  destruct (heap h !! address) as [o |] eqn:Ho; simpl.
  - destruct (instance_of o (lit "java.nio.ByteBuffer")); simpl.
    + unfold ByteBuffer_limit. simpl. rewrite Ho.
      destruct o; simpl; try (split; [done | by eexists]).
      split; [apply readByteBuffer_loop_state |].
      intros Hnot. by destruct (Hnot limit bytes).
    + split; [done | by eexists].
  - split; [done | by eexists].
Qed.

(** ** Logging: every level *)

(** X8.  [log] never raises and never drops a message: for every level
    value, a string or not, it appends exactly one entry with the tag [tbcml]
    and the message to the log, and one line with the message to the console,
    and changes nothing else. *)
Theorem log_emits_once (message : JsString) (level : JsValue) (h : Host) :
  ∃ p, log message level h = (Ret undefined, emit p message h).
Proof.
  assert (∀ v, ∃ p,
    (if strict_equals v "error" then logError message
     else if strict_equals v "warning" then logWarning message
     else if strict_equals v "info" then logInfo message
     else if strict_equals v "verbose" then logVerbose message
     else if strict_equals v "debug" then logDebug message
     else logInfo message) h = (Ret undefined, emit p message h)) as Hcases.
  { intros v.
    repeat (destruct (strict_equals v _);
            [eexists;
             first [apply logError_emits | apply logWarning_emits
                   | apply logInfo_emits | apply logVerbose_emits
                   | apply logDebug_emits] |]).
    eexists. apply logInfo_emits. }
  unfold log. apply Hcases.
Qed.

(** ** Class resolution: what the search touches *)

(** X9.  [getJavaClass] consults the loaders in enumeration order without a
    gap: the loaders whose [findClass] it calls are the first [k] enumerated
    ones, for some [k], and nothing else of the host state changes, whether
    the class is found or not. *)
Theorem getJavaClass_consults_prefix (h : Host) (className : JsString) :
  ∃ k, (getJavaClass className h).2 =
         with_consulted
           (consulted h ++ map loader_handle (take k (loaders h))) h.
Proof.
  destruct (decide (Exists (λ l, className ∈ loader_own l) (loaders h)))
    as [Hex | Hno].
  - destruct (first_resolving_loader _ _ Hex)
      as (before & l & after & Hsplit & Hmiss & Hl).
    exists (length (before ++ [l])).
    unfold getJavaClass, bind, enumerateClassLoadersSync, gets.
    rewrite Hsplit, (getJavaClass_loop_hit _ _ _ _ _ Hmiss Hl). simpl.
    rewrite (cons_middle l before after), app_assoc, take_app_length.
    unfold ClassFactory_use. simpl. by rewrite bool_decide_eq_true_2.
  - apply not_Exists_Forall in Hno; [| apply _].
    exists (length (loaders h)).
    unfold getJavaClass, bind, enumerateClassLoadersSync, gets.
    rewrite (getJavaClass_loop_miss _ _ _ Hno). simpl.
    by rewrite take_ge.
Qed.

(** X10.  [getJavaClass] returns no class that no loader resolves: a class it
    returns bears the name asked for and comes from an enumerated loader whose
    own [findClass] succeeds on the name, the first such loader. *)
Theorem getJavaClass_sound (h : Host) (className : JsString) (class : JClass) :
  (getJavaClass className h).1 = Ret class →
  class_name class = className ∧
  ∃ before l after,
    loaders h = before ++ l :: after ∧
    Forall (λ l', className ∉ loader_own l') before ∧
    className ∈ loader_own l ∧
    class_loader class = Some (loader_handle l).
Proof.
  destruct (decide (Exists (λ l, className ∈ loader_own l) (loaders h)))
    as [Hex | Hno].
  - destruct (first_resolving_loader _ _ Hex)
      as (before & l & after & Hsplit & Hmiss & Hl).
    unfold getJavaClass, bind, enumerateClassLoadersSync, gets.
    rewrite Hsplit, (getJavaClass_loop_hit _ _ _ _ _ Hmiss Hl). simpl.
    unfold ClassFactory_use. simpl. rewrite bool_decide_eq_true_2 by done.
    simpl. intros [= <-]. split; [done |]. by exists before, l, after.
  - apply not_Exists_Forall in Hno; [| apply _].
    unfold getJavaClass, bind, enumerateClassLoadersSync, gets.
    by rewrite (getJavaClass_loop_miss _ _ _ Hno).
Qed.

(** ** The fetch: a URL that is not served *)


(** ** The entry point: what is logged *)





(** ** Package queries *)

(** X14.  The two package queries succeed together: with an application
    [getPackageName] returns its name and [getPackageVersion] its version
    code, the lookup of the package info by the application's own name never
    failing; without one both raise a [TypeError].  Neither changes the host
    state. *)
Theorem package_queries_agree (h : Host) :
  match application h with
  | Some app =>
      getPackageName h = (Ret (package_name app), h) ∧
      getPackageVersion h = (Ret (version_code app), h)
  | None =>
      getPackageName h = (Throw (TypeError (lit "getPackageName")), h) ∧
      getPackageVersion h = (Throw (TypeError (lit "getApplicationContext")), h)
  end.
Proof.
  destruct (application h) as [app |] eqn:Happ.
  - split; [by apply getPackageName_application
           | by apply getPackageVersion_application].
  - unfold getPackageName, getPackageVersion, bind, currentApplication, gets.
    simpl. by rewrite Happ.
Qed.

(** ** The base address: no wrap-around *)

(** X15.  For a module whose base lies at least 4096 bytes below the top of
    the address space, [getBaseAddress] returns the base plus 4096
    exactly. *)
Theorem getBaseAddress_exact (h : Host) (base : Z) :
  modules h !! lit "libnative-lib.so" = Some base →
  0 ≤ base →
  base + 4096 < 2 ^ (8 * pointerSize h) →
  getBaseAddress h = (Ret (Some (base + 4096)), h).
Proof.
  intros Hbase Hlow Hhigh. rewrite getBaseAddress_run, Hbase.
  by rewrite pointer_plus_exact by lia.
Qed.

End Script.

(** * Examples on the concrete hosts *)

Lemma log_dispatch_witness :
  (JsStr (lit "trace") ∉ named_levels) ∧
  log (lit "started") (JsStr (lit "trace")) = logInfo (lit "started").
Proof.
  assert (JsStr (lit "trace") ∉ named_levels) as Hother.
  { unfold named_levels. intros Hin.
    repeat (apply elem_of_cons in Hin as [Hin | Hin]; [discriminate Hin |]).
    by apply elem_of_nil in Hin. }
  split; [exact Hother |].
  apply (log_dispatch (lit "started") (JsStr (lit "trace"))), Hother.
Defined.



Lemma readStdString_decodes_witness :
  load (memory demo_host) 16 = Some x04 ∧
  string_at ascii_decode demo_host 17 (lit "hi") ∧
  readStdString ascii_decode 16 demo_host = (Ret (Some (lit "hi")), demo_host).
Proof.
  assert (load (memory demo_host) 16 = Some x04) as Hb
    by (vm_compute; reflexivity).
  assert (string_at ascii_decode demo_host 17 (lit "hi")) as Hs
    by (exists [x68; x69]; split; vm_compute; reflexivity).
  split; [exact Hb |]. split; [exact Hs |].
  apply (readStdString_decodes ascii_decode demo_host 16 x04 17 (lit "hi"));
    [exact Hb | vm_compute; reflexivity | exact Hs].
Defined.

Example readStdString_heap :
  pointer_at demo_host 80 256 ∧
  string_at ascii_decode demo_host 256 (lit "hey") ∧
  readStdString ascii_decode 64 demo_host = (Ret (Some (lit "hey")), demo_host).
Proof.
  split; [| split].
  - exists [x00; x01; x00; x00; x00; x00; x00; x00].
    repeat split; vm_compute; reflexivity.
  - exists [x68; x65; x79]. split; vm_compute; reflexivity.
  - vm_compute; reflexivity.
Qed.


Example writeStdString_readStdString_heap :
  let h' := (writeStdString ascii_encode 64 (lit "yo") demo_host).2 in
  fits ascii_decode ascii_encode demo_host 64 (lit "yo") = true ∧
  readStdString ascii_decode 64 h' = (Ret (Some (lit "yo")), h') ∧
  load (memory h') 256 = Some x79 ∧ load (memory h') 64 = Some x11.
Proof. repeat split; vm_compute; reflexivity. Qed.

(** A content that runs into the header does not fit and is not read back:
    with the pointer slot of the heap string at 64 pointing at the string
    itself, the write replaces the discriminator byte. *)
Example fits_rejects_overlap :
  let h := with_memory
             (<[80 := x40]> (<[81 := x00]> (memory demo_host))) demo_host in
  fits ascii_decode ascii_encode h 64 (lit "hi") = false ∧
  (readStdString ascii_decode 64
     (writeStdString ascii_encode 64 (lit "hi") h).2).1
  = Ret (Some (lit "i")).
Proof. split; vm_compute; reflexivity. Qed.

Lemma getBaseAddress_offset_witness :
  modules demo_host !! lit "libnative-lib.so" = Some 0x7100000000 ∧
  (getBaseAddress demo_host).1 = Ret (Some 0x7100001000).
Proof.
  assert (modules demo_host !! lit "libnative-lib.so" = Some 0x7100000000)
    as Hbase by (vm_compute; reflexivity).
  split; [exact Hbase |].
  apply (proj1 (proj2 (getBaseAddress_offset demo_host)) 0x7100000000 Hbase).
Defined.

Example getBaseAddress_missing :
  getBaseAddress early_host = (Ret None, early_host).
Proof. vm_compute; reflexivity. Qed.

Lemma getJavaClass_first_loader_witness :
  Exists (λ l, demo_class ∈ loader_own l) (loaders demo_host) ∧
  ∃ before l after,
    loaders demo_host = before ++ l :: after ∧
    Forall (λ l', demo_class ∉ loader_own l') before ∧
    demo_class ∈ loader_own l ∧
    let h' := with_consulted
                (consulted demo_host ++ map loader_handle (before ++ [l]))
                demo_host in
    getJavaClass demo_class demo_host =
      ClassFactory_use {| factory_loader := l |} demo_class h' ∧
    getJavaClass demo_class demo_host =
      (Ret {| class_name := demo_class;
              class_loader := Some (loader_handle l) |}, h').
Proof.
  assert (Exists (λ l, demo_class ∈ loader_own l) (loaders demo_host)) as Hex
    by (apply Exists_cons_tl, Exists_cons_hd; simpl; constructor).
  split; [exact Hex |].
  apply (getJavaClass_first_loader demo_host demo_class Hex).
Defined.

(** The third loader resolves the class as well, and is not consulted. *)
Example getJavaClass_demo :
  getJavaClass demo_class demo_host =
    (Ret {| class_name := demo_class; class_loader := Some 902 |},
     with_consulted [901; 902] demo_host).
Proof. vm_compute; reflexivity. Qed.

Lemma getJavaClass_unresolved_witness :
  Forall (λ l, missing_class ∉ loader_own l) (loaders demo_host) ∧
  getJavaClass missing_class demo_host =
    (Throw (TypeError (lit "use")), with_consulted [901; 902; 903] demo_host).
Proof.
  assert (Forall (λ l, missing_class ∉ loader_own l) (loaders demo_host)) as Hmiss
    by (apply (bool_decide_unpack _); vm_compute; exact I).
  split; [exact Hmiss |].
  apply (getJavaClass_unresolved demo_host missing_class Hmiss).
Defined.

Lemma download_file_fetches_witness :
  network demo_host !! demo_url = Some [lit "alpha"; lit "beta"] ∧
  ∃ h' stream reader bufferedReader stringBuilder,
    download_file 3 demo_url demo_host = (Ret (lit "alphabeta"), h') ∧
    connections h' = connections demo_host ++ [demo_url] ∧
    heap h' !! stream = Some (JInputStream []) ∧
    heap h' !! reader = Some (JInputStreamReader stream) ∧
    heap h' !! bufferedReader = Some (JBufferedReader reader true) ∧
    heap h' !! stringBuilder = Some (JStringBuilder (lit "alphabeta")) ∧
    heap demo_host ⊆ heap h' ∧
    with_heap (heap demo_host) (with_connections (connections demo_host) h')
    = demo_host.
Proof.
  assert (network demo_host !! demo_url = Some [lit "alpha"; lit "beta"]) as Hnet
    by (vm_compute; reflexivity).
  split; [exact Hnet |].
  apply (download_file_fetches demo_host demo_url [lit "alpha"; lit "beta"] 3 Hnet).
  simpl. lia.
Defined.

(** With too little fuel the model of the loop gives no result. *)
Example download_file_fuel :
  (download_file 2 demo_url demo_host).1 = OutOfFuel ∧
  (download_file 3 demo_url demo_host).1 = Ret (lit "alphabeta") ∧
  (download_file 3 (lit "https://example.org/none") demo_host).1
  = Throw io_exception.
Proof. repeat split; vm_compute; reflexivity. Qed.

(** C8.  On the buffer of [demo_host], whose limit is 3 and whose bytes are
    [0x01 0x7F 0xFF], [readByteBuffer] returns a string of three characters;
    the character at index 2 has the code 65535, which is neither the value
    255 of the byte at index 2 nor its value -1 as a signed byte. *)
Theorem readByteBuffer_high_byte :
  heap demo_host !! 4104 = Some (JByteBuffer 3 [x01; x7f; xff]) ∧
  ∃ data,
    readByteBuffer 4104 demo_host = (Ret data, demo_host) ∧
    length data = 3%nat ∧
    charCodeAt data 0 = Some 1 ∧
    charCodeAt data 1 = Some 127 ∧
    charCodeAt data 2 = Some 65535 ∧
    byte_value xff = 255 ∧
    byte_signed xff = -1.
Proof.
  split; [vm_compute; reflexivity |].
  exists [1; 127; 65535]. repeat split; vm_compute; reflexivity.
Qed.

Example writeJString_demo :
  let h' := (writeJString 4096 (lit "dog") demo_host).2 in
  heap h' !! 4096 = Some (JString (lit "cat")) ∧
  (readJString 4096 h').1 = (readJString 4096 demo_host).1 ∧
  (writeJString 4104 (lit "dog") demo_host).1
  = Throw (CastError 4104 (lit "java.lang.String")).
Proof. repeat split; vm_compute; reflexivity. Qed.

(** * Examples for the further properties *)

Lemma readStdString_unterminated_witness :
  (storage 32 ragged_host).1 = Ret 33 ∧
  holds_bytes (memory ragged_host) 33 [x61; x62; x63] = true ∧
  load (memory ragged_host) 36 = None ∧
  readStdString ascii_decode 32 ragged_host =
    (Throw (AccessViolation 36), ragged_host).
Proof.
  assert ((storage 32 ragged_host).1 = Ret 33) as Hp by (vm_compute; reflexivity).
  assert (holds_bytes (memory ragged_host) 33 [x61; x62; x63] = true) as Hm
    by (vm_compute; reflexivity).
  assert (load (memory ragged_host) (33 + Z.of_nat (length [x61; x62; x63])) = None)
    as Hend by (vm_compute; reflexivity).
  split; [exact Hp |]. split; [exact Hm |]. split; [exact Hend |].
  apply (readStdString_unterminated ascii_decode ragged_host 32 33
           [x61; x62; x63] Hp); [lia | | exact Hm | exact Hend].
  repeat constructor; discriminate.
Defined.

Lemma writeStdString_frame_witness :
  let h' := (writeStdString ascii_encode 16 (lit "ok") demo_host).2 in
  clear_of 17 (length (cstring (ascii_encode (lit "ok")))) 20 = true ∧
  load (memory h') 20 = load (memory demo_host) 20.
Proof.
  intros h'.
  assert (clear_of 17 (length (cstring (ascii_encode (lit "ok")))) 20 = true)
    as Hclear by (vm_compute; reflexivity).
  split; [exact Hclear |].
  apply (proj2 (writeStdString_frame ascii_encode demo_host 16 (lit "ok")) 20 Hclear).
Defined.

Lemma writeStdString_stores_witness :
  let h' := (writeStdString ascii_encode 64 (lit "yo") demo_host).2 in
  (storage 64 demo_host).1 = Ret 256 ∧
  holds_cstring (memory h') 256 [x79; x6f] = true.
Proof.
  intros h'.
  assert ((storage 64 demo_host).1 = Ret 256) as Hp by (vm_compute; reflexivity).
  split; [exact Hp |].
  apply (writeStdString_stores ascii_encode demo_host h' 64 256 (lit "yo") Hp).
  vm_compute; reflexivity.
Defined.


Lemma readByteBuffer_length_and_codes_witness :
  heap demo_host !! 4104 = Some (JByteBuffer 3 [x01; x7f; xff]) ∧
  ∃ data, readByteBuffer 4104 demo_host = (Ret data, demo_host) ∧
    Z.of_nat (length data) = 3 ∧
    ∀ (i : nat) b, Z.of_nat i < 3 → [x01; x7f; xff] !! i = Some b →
      charCodeAt data i =
        Some (if byte_value b <? 128 then byte_value b else byte_value b + 65280).
Proof.
  assert (heap demo_host !! 4104 = Some (JByteBuffer 3 [x01; x7f; xff])) as Hbb
    by (vm_compute; reflexivity).
  split; [exact Hbb |].
  apply (readByteBuffer_length_and_codes demo_host 4104 3 [x01; x7f; xff] Hbb).
  simpl. lia.
Defined.

Lemma readByteBuffer_reads_only_witness :
  (∀ limit bytes, heap demo_host !! 4096 ≠ Some (JByteBuffer limit bytes)) ∧
  ∃ e, (readByteBuffer 4096 demo_host).1 = Throw e.
Proof.
  assert (∀ limit bytes, heap demo_host !! 4096 ≠ Some (JByteBuffer limit bytes))
    as Hnot by (intros limit bytes; vm_compute; discriminate).
  split; [exact Hnot |].
  apply (proj2 (readByteBuffer_reads_only 4096 demo_host) Hnot).
Defined.

Lemma getJavaClass_sound_witness :
  let class := {| class_name := demo_class; class_loader := Some 902 |} in
  (getJavaClass demo_class demo_host).1 = Ret class ∧
  class_name class = demo_class ∧
  ∃ before l after,
    loaders demo_host = before ++ l :: after ∧
    Forall (λ l', demo_class ∉ loader_own l') before ∧
    demo_class ∈ loader_own l ∧
    class_loader class = Some (loader_handle l).
Proof.
  intros class.
  assert ((getJavaClass demo_class demo_host).1 = Ret class) as Hret
    by (vm_compute; reflexivity).
  split; [exact Hret |].
  apply (getJavaClass_sound demo_host demo_class class Hret).
Defined.




Lemma getBaseAddress_exact_witness :
  modules demo_host !! lit "libnative-lib.so" = Some 0x7100000000 ∧
  getBaseAddress demo_host = (Ret (Some 0x7100001000), demo_host).
Proof.
  assert (modules demo_host !! lit "libnative-lib.so" = Some 0x7100000000)
    as Hbase by (vm_compute; reflexivity).
  split; [exact Hbase |].
  apply (getBaseAddress_exact demo_host 0x7100000000 Hbase); [lia |].
  vm_compute; reflexivity.
Defined.
